(** * Shallow embedding of src/data_analyzer.py (Volatility-DataAnalysis)

    Floats are modelled by exact rationals [Q]; a value that Python would
    turn into NaN (the mean of an empty list) is [None] in the type [F].
    A return series (a pandas DataFrame indexed by a sorted DatetimeIndex)
    is a list of rows in index order. *)

From Stdlib Require Import String Ascii ZArith QArith Qabs Qpower List Sorted Bool Arith Lia.
Import ListNotations.
Open Scope Z_scope.

(** ** Timestamps and calendar months *)

Record Timestamp := mkTs {
  ts_year : Z;
  ts_month : Z;   (** 1 .. 12 *)
  ts_day : Z;
  ts_sec : Z      (** seconds since midnight *)
}.

(** Lexicographic comparison of timestamps (pandas Timestamp ordering). *)
Definition ts_compare (a b : Timestamp) : comparison :=
  match Z.compare (ts_year a) (ts_year b) with
  | Eq =>
    match Z.compare (ts_month a) (ts_month b) with
    | Eq =>
      match Z.compare (ts_day a) (ts_day b) with
      | Eq => Z.compare (ts_sec a) (ts_sec b)
      | c => c
      end
    | c => c
    end
  | c => c
  end.

Definition ts_le (a b : Timestamp) : bool :=
  match ts_compare a b with Gt => false | _ => true end.

Definition ts_eqb (a b : Timestamp) : bool :=
  match ts_compare a b with Eq => true | _ => false end.

(** A calendar month [dt.date(year, month, 1)] as the pair (year, month). *)
Definition YM := (Z * Z)%type.

Definition ym_compare (a b : YM) : comparison :=
  match Z.compare (fst a) (fst b) with
  | Eq => Z.compare (snd a) (snd b)
  | c => c
  end.

(** [dt.date(y, m, 1)] used as a slice bound of a DatetimeIndex: midnight. *)
Definition month_start (d : YM) : Timestamp := mkTs (fst d) (snd d) 1 0.

(** [d + relativedelta(months=1)] for a first-of-month date. *)
Definition add_month (d : YM) : YM :=
  if Z.eqb (snd d) 12 then (fst d + 1, 1) else (fst d, snd d + 1).

(** ** Frames *)

Record Row := mkRow { idx : Timestamp; ret : Q }.
Definition Frame := list Row.

Definition row_ym (r : Row) : YM := (ts_year (idx r), ts_month (idx r)).

(** [df[a:b]] with date bounds on a sorted DatetimeIndex: label-based
    slicing, inclusive at both ends. *)
Definition slice (df : Frame) (a b : Timestamp) : Frame :=
  filter (fun r => ts_le a (idx r) && ts_le (idx r) b) df.

(** Insertion into a sorted list of distinct months (a [set] then [sorted]). *)
Fixpoint insert_month (k : YM) (l : list YM) : list YM :=
  match l with
  | [] => [k]
  | h :: t =>
    match ym_compare k h with
    | Lt => k :: l
    | Eq => l
    | Gt => h :: insert_month k t
    end
  end.

(** [sorted(set([dt.date(d.year, d.month, 1) for d in df.index]))] *)
Definition months_of (df : Frame) : list YM :=
  fold_left (fun acc r => insert_month (row_ym r) acc) df [].

(** ** Floats with NaN *)

Definition F := option Q.

Fixpoint Qsum (l : list Q) : Q :=
  match l with [] => 0%Q | x :: t => (x + Qsum t)%Q end.

(** [np.mean]: NaN on an empty list. *)
Definition np_mean (l : list Q) : F :=
  match l with
  | [] => None
  | _ => Some (Qsum l / inject_Z (Z.of_nat (length l)))%Q
  end.

(** Float [<]: false as soon as one side is NaN. *)
Definition F_lt (a b : F) : bool :=
  match a, b with
  | Some x, Some y => negb (Qle_bool y x)
  | _, _ => false
  end.

(** ** Exceptions *)

Inductive ValueErrorMsg :=
| ModelTypeRequired
| AcceptableModelRequired
| DatasetTooSmall (size window : nat)
| LengthMismatch (values index : nat).

Inductive Exn :=
| ValueError (m : ValueErrorMsg)
| ModelError (code : nat).   (** an exception raised by an external model *)

(** ** Strings: [str.lower] on ASCII *)

Definition ascii_lower (c : ascii) : ascii :=
  let n := nat_of_ascii c in
  if (65 <=? n)%nat && (n <=? 90)%nat then ascii_of_nat (n + 32) else c.

Fixpoint str_lower (s : string) : string :=
  match s with
  | EmptyString => EmptyString
  | String c t => String (ascii_lower c) (str_lower t)
  end.

(** Modelled from the spec: the constant [VolatilityModelsMap.CloseToClose]
    of utilities.py (absent from src/), the model type "close-to-close". *)
Definition VolatilityModelsMap_CloseToClose : string := "close-to-close".

(** ** VolatilityEstimator *)

Record VolatilityEstimator := mkVE {
  model_type : string;
  clean : bool;
  frequency : Z
}.

(** [VolatilityEstimator.__init__]; [model_type] is [None] or a string. *)
Definition VolatilityEstimator_init (mt : option string) (cl : bool) (freq : Z)
  : Exn + VolatilityEstimator :=
  match mt with
  | None => inl (ValueError ModelTypeRequired)
  | Some s =>
    if String.eqb s "" then inl (ValueError ModelTypeRequired)
    else
      let s' := str_lower s in
      if existsb (String.eqb s') [VolatilityModelsMap_CloseToClose]
      then inr (mkVE s' cl freq)
      else inl (ValueError AcceptableModelRequired)
  end.

(** Realized volatility: a series of (timestamp, volatility). *)
Definition RV := list (Timestamp * Q).

(** [VolatilityEstimator.get_realized_vol]; [ctc] is
    [CloseToCloseModel(df, window, clean).get_estimator()] of models.py.
    The result [None] is Python's implicit [return None]. *)
Definition get_realized_vol
  (ctc : Frame -> nat -> bool -> Exn + RV)
  (self : VolatilityEstimator) (df : Frame) (window : nat) : Exn + option RV :=
  if (length df <=? window)%nat
  then inl (ValueError (DatasetTooSmall (length df) window))
  else if String.eqb (model_type self) VolatilityModelsMap_CloseToClose
  then match ctc df window (clean self) with
       | inl e => inl e
       | inr v => inr (Some v)
       end
  else inr None.

(** ** DataAnalyzer.get_residuals *)

(** [df[Returns].mean()]: NaN on an empty column. *)
Definition series_mean (rets : list Q) : F := np_mean rets.

Definition F_sub (a b : F) : F :=
  match a, b with Some x, Some y => Some (x - y)%Q | _, _ => None end.
Definition F_abs (a : F) : F := option_map Qabs a.
Definition F_sq (a : F) : F := option_map (fun x => x * x)%Q a.

(** Per row: (Residuals, Abs_residuals, Square_residuals). *)
Definition get_residuals (rets : list Q) : list (F * F * F) :=
  let m := series_mean rets in
  let residuals := map (fun r => F_sub (Some r) m) rets in
  map (fun e => (e, F_abs e, F_sq e)) residuals.

(** ** The error/writer monad of collaborator calls *)

(** The fitted parameters of a volatility model. *)
Record Param := mkParam { conditional_volatility : list Q }.

(** Calls made to the collaborators, as a spy records them. *)
Inductive Call :=
| CTrain (df : Frame)
| CForecast (horizon : nat)
| CRealized (df : Frame) (window : nat).

Definition M (A : Type) : Type := (list Call * (Exn + A))%type.

Definition ret_M {A} (a : A) : M A := ([], inr a).
Definition raise {A} (e : Exn) : M A := ([], inl e).
Definition bind_M {A B} (m : M A) (f : A -> M B) : M B :=
  match m with
  | (w, inl e) => (w, inl e)
  | (w, inr a) => let (w', r) := f a in (w ++ w', r)
  end.

Notation "x <- m ;; k" := (bind_M m (fun x => k))
  (at level 61, m at next level, right associativity).

(** The collaborators of an [ErrorEstimator]. *)
Record VolatilityModel := mkVM {
  train_model : Frame -> Exn + Param;
  vol_forecast : Param -> nat -> Exn + list Q
}.

Record ErrorEstimator := mkEE {
  model : VolatilityModel;
  realized_vol_estimator : Frame -> nat -> Exn + RV;
  ee_frequency : Z
}.

Definition call_train (self : ErrorEstimator) (df : Frame) : M Param :=
  ([CTrain df], train_model (model self) df).
Definition call_forecast (self : ErrorEstimator) (p : Param) (n : nat) : M (list Q) :=
  ([CForecast n], vol_forecast (model self) p n).
Definition call_realized (self : ErrorEstimator) (df : Frame) (w : nat) : M RV :=
  ([CRealized df w], realized_vol_estimator self df w).

(** [pd.merge(df, real_vol, left_index=True, right_index=True)]: inner join
    on the index, in the order of the left frame; each output row carries
    (Cond_volatility, Volatility). *)
Definition merge_index (left : list (Row * Q)) (right : RV) : list (Q * Q) :=
  flat_map (fun rc =>
    map (fun tv => (snd rc, snd tv))
        (filter (fun tv => ts_eqb (fst tv) (idx (fst rc))) right)) left.

Definition sq_err (cr : Q * Q) : Q := ((fst cr - snd cr) * (fst cr - snd cr))%Q.

(** [ErrorEstimator._get_estimated_errors] *)
Definition get_estimated_errors (self : ErrorEstimator) (train_df test_df : Frame)
  : M Q :=
  param <- call_train self train_df ;;
  predictions <- call_forecast self param (length test_df) ;;
  let df := train_df ++ test_df in
  let cond_vols := conditional_volatility param ++ predictions in
  if negb (length cond_vols =? length df)%nat
  then raise (ValueError (LengthMismatch (length cond_vols) (length df)))
  else
    let df' := combine df cond_vols in
    real_vol <- call_realized self df (length train_df) ;;
    ret_M (Qsum (map sq_err (merge_index df' real_vol))).

(** The error accumulator [defaultdict(list)], keys in insertion order. *)
Definition Errors := list (nat * list Q).

(** [errors[k].append(x)] *)
Fixpoint dd_append (k : nat) (x : Q) (d : Errors) : Errors :=
  match d with
  | [] => [(k, [x])]
  | (k', l) :: t => if (k =? k')%nat then (k', l ++ [x]) :: t
                    else (k', l) :: dd_append k x t
  end.

(** [errors[k]] on a defaultdict: inserts [k: []] when missing. *)
Definition dd_get (k : nat) (d : Errors) : Errors * list Q :=
  match find (fun kl => (fst kl =? k)%nat) d with
  | Some (_, l) => (d, l)
  | None => (d ++ [(k, [])], [])
  end.

Section Search.
Variable self : ErrorEstimator.
Variable df : Frame.
Variable months : list YM.

Definition train_window (length index : nat) : Frame :=
  slice df (month_start (nth index months (0, 0)))
           (month_start (nth (index + length) months (0, 0))).

Definition test_window (length index : nat) : Frame :=
  let test_start := nth (index + length) months (0, 0) in
  slice df (month_start test_start) (month_start (add_month test_start)).

(** [for index, train_start in enumerate(current_months): ...] *)
Fixpoint run_starts (length : nat) (current : list YM) (index : nat) (errors : Errors)
  : M Errors :=
  match current with
  | [] => ret_M errors
  | train_start :: rest =>
    let train_end := nth (index + length) months (0, 0) in
    let test_start := train_end in
    let test_end := add_month test_start in
    let train_df := slice df (month_start train_start) (month_start train_end) in
    let test_df := slice df (month_start test_start) (month_start test_end) in
    e <- get_estimated_errors self train_df test_df ;;
    run_starts length rest (S index) (dd_append length e errors)
  end.

(** [for length in range(1, len(months)): current_months = months[:-length]; ...] *)
Fixpoint run_lengths (lengths : list nat) (errors : Errors) : M Errors :=
  match lengths with
  | [] => ret_M errors
  | length :: ls =>
    errs <- run_starts length (firstn (List.length months - length) months) 0 errors ;;
    run_lengths ls errs
  end.

End Search.

(** One step of [for length, err in errors.items(): ...] *)
Definition select_step (acc : nat * F) (kl : nat * list Q) : nat * F :=
  let current_err := np_mean (snd kl) in
  if F_lt current_err (snd acc) then (fst kl, current_err) else acc.

(** [ErrorEstimator.get_best_sample_size]; [min_sample_size] is the
    configured threshold of utilities.py. *)
Definition get_best_sample_size (min_sample_size : nat) (self : ErrorEstimator)
  (df : Frame) : M (nat * F) :=
  if (length df <=? min_sample_size)%nat then ret_M (length df, Some 0%Q)
  else
    let months := months_of df in
    errors <- run_lengths self df months (seq 1 (length months - 1)) [] ;;
    let (errors', e1) := dd_get 1 errors in
    ret_M (fold_left select_step errors' (1%nat, np_mean e1)).

(** ** Definitions used to state the claims *)

(** The (length, start index) pairs of the search, in the order the claims
    describe: lengths 1 .. K-1, for each length start indices 0 .. K-1-L. *)
Definition trial_schedule (K : nat) : list (nat * nat) :=
  flat_map (fun L => map (pair L) (seq 0 (K - L))) (seq 1 (K - 1)).

(** The trial of [get_best_sample_size] at a (length, start index) pair. *)
Definition trial (self : ErrorEstimator) (df : Frame) (months : list YM)
  (Li : nat * nat) : M Q :=
  get_estimated_errors self (train_window df months (fst Li) (snd Li))
    (test_window df months (fst Li) (snd Li)).

(** One trial followed by [errors[length].append(...)]. *)
Definition trial_step (self : ErrorEstimator) (df : Frame) (months : list YM)
  (errors : Errors) (Li : nat * nat) : M Errors :=
  e <- trial self df months Li ;; ret_M (dd_append (fst Li) e errors).

(** Monadic left fold. *)
Fixpoint mfold {A B : Type} (f : A -> B -> M A) (a : A) (l : list B) : M A :=
  match l with
  | [] => ret_M a
  | x :: t => bind_M (f a x) (fun a' => mfold f a' t)
  end.

(** The value of a trial that succeeded. *)
Definition trial_val (self : ErrorEstimator) (df : Frame) (months : list YM)
  (Li : nat * nat) : Q :=
  match snd (trial self df months Li) with inr x => x | inl _ => 0%Q end.

(** The spec's alignment: each row of the left series whose index also
    appears in the realized series, paired with that realized value. *)
Definition aligned (left : list (Row * Q)) (right : RV) : list (Q * Q) :=
  flat_map (fun rc =>
    match find (fun tv => ts_eqb (fst tv) (idx (fst rc))) right with
    | Some tv => [(snd rc, snd tv)]
    | None => []
    end) left.

(** Arithmetic mean of a non-empty list of rationals. *)
Definition arith_mean (l : list Q) : Q :=
  (Qsum l / inject_Z (Z.of_nat (length l)))%Q.

(** A timestamp as pandas builds it: month in 1 .. 12, day at least 1,
    non-negative time of day. *)
Definition wf_ts (t : Timestamp) : Prop :=
  (1 <= ts_month t <= 12 /\ 1 <= ts_day t /\ 0 <= ts_sec t)%Z.

(** Strict order on calendar months. *)
Definition ym_lt (a b : YM) : Prop := ym_compare a b = Lt.

(** ** Sample collaborators and series *)

(** A model whose in-sample and forecast volatilities are all 0. *)
Definition zero_model : VolatilityModel :=
  mkVM (fun df => inr (mkParam (map (fun _ => 0%Q) df)))
       (fun _ n => inr (repeat 0%Q n)).

(** A realized-volatility estimator giving volatility 1 at every row. *)
Definition unit_realized (df : Frame) (window : nat) : Exn + RV :=
  inr (map (fun r => (idx r, 1%Q)) df).

(** A realized-volatility estimator that raises a sizing error when fewer
    than 5 points follow the split index. *)
Definition picky_realized (df : Frame) (window : nat) : Exn + RV :=
  if (length df - window <? 5)%nat
  then inl (ValueError (DatasetTooSmall (length df) window))
  else unit_realized df window.

Definition unit_ee : ErrorEstimator := mkEE zero_model unit_realized 0.
Definition picky_ee : ErrorEstimator := mkEE zero_model picky_realized 0.

(** A daily observation at midnight, with return 1. *)
Definition day (y m d : Z) : Row := mkRow (mkTs y m d 0) 1%Q.

(** Five days over January to March 2020, two of them on the 1st. *)
Definition df_month_starts : Frame :=
  [day 2020 1 15; day 2020 2 1; day 2020 2 15; day 2020 3 1; day 2020 3 10].

(** Six days over January to March 2020, none on the 1st. *)
Definition df_mid_months : Frame :=
  [day 2020 1 15; day 2020 1 20; day 2020 2 14; day 2020 2 20; day 2020 3 16; day 2020 3 20].

(** Two days of January 2020. *)
Definition df_one_month : Frame := [day 2020 1 15; day 2020 1 20].

(** A close-to-close estimator returning volatility 1 at every row. *)
Definition unit_ctc (df : Frame) (window : nat) (cl : bool) : Exn + RV :=
  unit_realized df window.

(** ** General lemmas *)

Lemma bind_ret_l {A B} (a : A) (f : A -> M B) : bind_M (ret_M a) f = f a.
Proof. unfold bind_M, ret_M. destruct (f a). reflexivity. Qed.

Lemma bind_ret_r {A} (m : M A) : bind_M m ret_M = m.
Proof.
  destruct m as [w [e|a]]; simpl; [reflexivity|]. rewrite app_nil_r. reflexivity.
Qed.

Lemma bind_assoc {A B C} (m : M A) (f : A -> M B) (g : B -> M C) :
  bind_M (bind_M m f) g = bind_M m (fun x => bind_M (f x) g).
Proof.
  destruct m as [w [e|a]]; simpl; [reflexivity|].
  destruct (f a) as [w1 [e1|b]]; simpl; [reflexivity|].
  destruct (g b) as [w2 r]. rewrite app_assoc. reflexivity.
Qed.

Lemma bind_ext {A B} (m : M A) (f g : A -> M B) :
  (forall x, f x = g x) -> bind_M m f = bind_M m g.
Proof. intro H. destruct m as [w [e|a]]; simpl; [reflexivity|]. rewrite H. reflexivity. Qed.

Lemma mfold_app {A B} (f : A -> B -> M A) (a : A) (l1 l2 : list B) :
  mfold f a (l1 ++ l2) = bind_M (mfold f a l1) (fun a' => mfold f a' l2).
Proof.
  revert a. induction l1 as [|x t IH]; intro a; cbn [mfold app].
  - rewrite bind_ret_l. reflexivity.
  - rewrite bind_assoc. apply bind_ext. intro a'. apply IH.
Qed.

Section SearchLemmas.
Variable self : ErrorEstimator.
Variable df : Frame.
Variable months : list YM.

Lemma run_starts_mfold (L : nat) : forall cur idx errs,
  (forall j, (j < length cur)%nat -> nth j cur (0, 0) = nth (idx + j) months (0, 0)) ->
  run_starts self df months L cur idx errs =
  mfold (trial_step self df months) errs (map (pair L) (seq idx (length cur))).
Proof.
  induction cur as [|x rest IH]; intros idx errs H; [reflexivity|].
  cbn [run_starts length seq map mfold].
  assert (Hx : x = nth idx months (0, 0)).
  { specialize (H 0%nat). simpl in H. rewrite Nat.add_0_r in H. apply H. lia. }
  subst x. unfold trial_step. rewrite bind_assoc. apply bind_ext. intro e.
  rewrite bind_ret_l. apply IH. intros j Hj.
  specialize (H (S j)). simpl in H. replace (S idx + j)%nat with (idx + S j)%nat by lia.
  apply H. lia.
Qed.

Lemma run_lengths_mfold : forall ls errs,
  run_lengths self df months ls errs =
  mfold (trial_step self df months) errs
    (flat_map (fun L => map (pair L) (seq 0 (length months - L))) ls).
Proof.
  induction ls as [|L ls IH]; intro errs; [reflexivity|].
  cbn [run_lengths flat_map]. rewrite mfold_app.
  rewrite run_starts_mfold; rewrite firstn_length_le by lia.
  - apply bind_ext. intro a. apply IH.
  - intros j Hj. rewrite nth_firstn.
    apply Nat.ltb_lt in Hj. rewrite Hj. reflexivity.
Qed.

(** A search whose trials all succeed records the calls of every trial, in
    order, and accumulates every trial error. *)
Lemma mfold_trials_ok : forall l errs,
  (forall Li, In Li l -> exists x, snd (trial self df months Li) = inr x) ->
  mfold (trial_step self df months) errs l =
  (flat_map (fun Li => fst (trial self df months Li)) l,
   inr (fold_left (fun e Li => dd_append (fst Li) (trial_val self df months Li) e) l errs)).
Proof.
  induction l as [|Li l IH]; intros errs H; [reflexivity|].
  cbn [mfold flat_map fold_left]. unfold trial_step.
  destruct (H Li (or_introl eq_refl)) as [x Hx].
  unfold trial_val at 2. rewrite Hx.
  destruct (trial self df months Li) as [w r] eqn:Et. simpl in Hx. subst r.
  simpl. rewrite IH by (intros; apply H; right; assumption).
  rewrite app_nil_r. reflexivity.
Qed.

(** The first failing trial ends the search with its exception. *)
Lemma mfold_trials_fail : forall pre Li post errs e,
  (forall Lj, In Lj pre -> exists x, snd (trial self df months Lj) = inr x) ->
  snd (trial self df months Li) = inl e ->
  mfold (trial_step self df months) errs (pre ++ Li :: post) =
  (flat_map (fun Lj => fst (trial self df months Lj)) pre ++ fst (trial self df months Li),
   inl e).
Proof.
  induction pre as [|Lj pre IH]; intros Li post errs e Hpre Hfail.
  - cbn [app mfold flat_map]. unfold trial_step.
    destruct (trial self df months Li) as [w r] eqn:Et. simpl in Hfail. subst r.
    reflexivity.
  - cbn [app mfold flat_map]. unfold trial_step.
    destruct (Hpre Lj (or_introl eq_refl)) as [x Hx].
    destruct (trial self df months Lj) as [w r] eqn:Et. simpl in Hx. subst r.
    simpl. rewrite (IH Li post _ e); [| intros; apply Hpre; right; assumption | assumption].
    rewrite app_nil_r, app_assoc. reflexivity.
Qed.

End SearchLemmas.

Lemma get_best_sample_size_search (min_sample_size : nat) (self : ErrorEstimator)
  (df : Frame) :
  (min_sample_size < length df)%nat ->
  get_best_sample_size min_sample_size self df =
  bind_M (mfold (trial_step self df (months_of df)) [] (trial_schedule (length (months_of df))))
    (fun errors => let (errors', e1) := dd_get 1 errors in
                   ret_M (fold_left select_step errors' (1%nat, np_mean e1))).
Proof.
  intro H. unfold get_best_sample_size.
  destruct (Nat.leb_spec (length df) min_sample_size); [lia|].
  rewrite run_lengths_mfold. reflexivity.
Qed.

Lemma ym_compare_refl (k : YM) : ym_compare k k = Eq.
Proof. destruct k as [y m]. unfold ym_compare. simpl. rewrite !Z.compare_refl. reflexivity. Qed.

Lemma months_of_single_month (df : Frame) (k : YM) :
  df <> [] -> (forall r, In r df -> row_ym r = k) -> months_of df = [k].
Proof.
  intros Hne Hall. unfold months_of.
  destruct df as [|r0 rest]; [congruence|]. simpl.
  rewrite (Hall r0 (or_introl eq_refl)).
  assert (Hrest : forall r, In r rest -> row_ym r = k) by (intros; apply Hall; right; assumption).
  clear Hall Hne r0. induction rest as [|r rest IH]; [reflexivity|].
  simpl. rewrite (Hrest r (or_introl eq_refl)), ym_compare_refl.
  apply IH. intros; apply Hrest; right; assumption.
Qed.

(** ** C1 *)

(** C1: for a series with at most [min_sample_size] observations,
    [get_best_sample_size] returns (series length, 0.0) and the spy log of
    collaborator calls is empty: neither the volatility model nor the
    realized-volatility estimator is invoked. *)
Theorem get_best_sample_size_short_series (min_sample_size : nat)
  (self : ErrorEstimator) (df : Frame) :
  (length df <= min_sample_size)%nat ->
  get_best_sample_size min_sample_size self df = ([], inr (length df, Some 0%Q)).
Proof.
  intro H. unfold get_best_sample_size.
  apply Nat.leb_le in H. rewrite H. reflexivity.
Qed.

(** ** C8 *)

(** C8: when the trials before some trial of the search succeed and that
    trial raises [e] (training error, sizing error or any other), the whole
    [get_best_sample_size] call raises exactly [e]: no result is returned,
    and the collaborator calls stop at the failing trial. *)
Theorem get_best_sample_size_trial_failure_propagates (min_sample_size : nat)
  (self : ErrorEstimator) (df : Frame) pre Li post (e : Exn) :
  (min_sample_size < length df)%nat ->
  trial_schedule (length (months_of df)) = pre ++ Li :: post ->
  (forall Lj, In Lj pre -> exists x, snd (trial self df (months_of df) Lj) = inr x) ->
  snd (trial self df (months_of df) Li) = inl e ->
  get_best_sample_size min_sample_size self df =
  (flat_map (fun Lj => fst (trial self df (months_of df) Lj)) pre
     ++ fst (trial self df (months_of df) Li), inl e).
Proof.
  intros Hlen Hsched Hpre Hfail.
  rewrite get_best_sample_size_search by assumption.
  rewrite Hsched, (mfold_trials_fail _ _ _ pre Li post [] e Hpre Hfail).
  reflexivity.
Qed.

(** ** C10 *)

(** C10: for a series longer than [min_sample_size] whose timestamps all lie
    in one calendar month, no trial runs (no collaborator call) and the
    result is (1, m) with m the NaN mean of the empty list, not an error. *)
Theorem get_best_sample_size_single_month (min_sample_size : nat)
  (self : ErrorEstimator) (df : Frame) (k : YM) :
  (min_sample_size < length df)%nat ->
  (forall r, In r df -> row_ym r = k) ->
  get_best_sample_size min_sample_size self df = ([], inr (1%nat, np_mean []))
  /\ np_mean [] = None.
Proof.
  intros Hlen Hall. split; [|reflexivity].
  rewrite get_best_sample_size_search by assumption.
  rewrite (months_of_single_month df k); [reflexivity | | assumption].
  intro Hnil. subst df. simpl in Hlen. lia.
Qed.

(** ** C2 *)

Definition is_train (c : Call) : bool :=
  match c with CTrain _ => true | _ => false end.

Lemma get_estimated_errors_log (self : ErrorEstimator) (tr te : Frame) (x : Q) :
  snd (get_estimated_errors self tr te) = inr x ->
  fst (get_estimated_errors self tr te) =
  [CTrain tr; CForecast (length te); CRealized (tr ++ te) (length tr)].
Proof.
  unfold get_estimated_errors, call_train, call_forecast, call_realized, bind_M, raise, ret_M.
  destruct (train_model (model self) tr) as [e|p]; simpl; [discriminate|].
  destruct (vol_forecast (model self) p (length te)) as [e|preds]; simpl; [discriminate|].
  destruct (negb _); simpl; [discriminate|].
  destruct (realized_vol_estimator self (tr ++ te) (length tr)) as [e|rv]; simpl;
    [discriminate|].
  reflexivity.
Qed.

Lemma filter_pair (L a : nat) (xs : list nat) :
  filter (fun Li : nat * nat => (fst Li =? L)%nat) (map (pair a) xs) =
  if (a =? L)%nat then map (pair a) xs else [].
Proof.
  induction xs as [|x xs IH]; simpl; [destruct (a =? L)%nat; reflexivity|].
  rewrite IH. destruct (a =? L)%nat; reflexivity.
Qed.

Lemma filter_schedule (K L : nat) : forall n a,
  filter (fun Li : nat * nat => (fst Li =? L)%nat)
    (flat_map (fun L' => map (pair L') (seq 0 (K - L'))) (seq a n)) =
  if ((a <=? L) && (L <? a + n))%nat then map (pair L) (seq 0 (K - L)) else [].
Proof.
  induction n as [|n IH]; intro a.
  - simpl. destruct ((a <=? L) && (L <? a + 0))%nat eqn:E; [|reflexivity].
    apply andb_true_iff in E as [E1 E2].
    apply Nat.leb_le in E1. apply Nat.ltb_lt in E2. lia.
  - cbn [seq flat_map]. rewrite filter_app, filter_pair, IH.
    destruct (Nat.eqb_spec a L) as [->|Hne].
    + replace ((S L <=? L))%nat with false by (symmetry; apply Nat.leb_gt; lia).
      replace ((L <=? L) && (L <? L + S n))%nat with true
        by (symmetry; apply andb_true_iff; split; [apply Nat.leb_le | apply Nat.ltb_lt]; lia).
      simpl. apply app_nil_r.
    + cbn -[Nat.leb Nat.ltb Nat.add].
      destruct (Nat.leb_spec (S a) L), (Nat.ltb_spec L (S a + n)),
               (Nat.leb_spec a L), (Nat.ltb_spec L (a + S n)); simpl;
        solve [reflexivity | lia].
Qed.

Lemma length_schedule (K : nat) : forall n a, (a + n = K)%nat ->
  (2 * length (flat_map (fun L' => map (pair L') (seq 0 (K - L'))) (seq a n))
   = n * (n + 1))%nat.
Proof.
  induction n as [|n IH]; intros a Ha; [reflexivity|].
  cbn [seq flat_map]. rewrite length_app, length_map, length_seq.
  specialize (IH (S a)). lia.
Qed.

Lemma length_trial_schedule (K : nat) :
  length (trial_schedule K) = (K * (K - 1) / 2)%nat.
Proof.
  unfold trial_schedule. destruct K as [|K]; [reflexivity|].
  pose proof (length_schedule (S K) K 1 ltac:(lia)) as H.
  replace (S K - 1)%nat with K by lia.
  set (n := length _) in *.
  replace (S K * K)%nat with (n * 2)%nat by lia.
  rewrite Nat.div_mul; [reflexivity | lia].
Qed.

Lemma count_train_calls (self : ErrorEstimator) (df : Frame) (months : list YM) :
  forall l, (forall Li, In Li l -> exists x, snd (trial self df months Li) = inr x) ->
  length (filter is_train (flat_map (fun Li => fst (trial self df months Li)) l))
  = length l.
Proof.
  induction l as [|Li l IH]; intro H; [reflexivity|].
  cbn [flat_map]. rewrite filter_app, length_app.
  destruct (H Li (or_introl eq_refl)) as [x Hx].
  unfold trial in *. rewrite (get_estimated_errors_log _ _ _ x Hx).
  simpl. rewrite IH; [reflexivity|]. intros; apply H; right; assumption.
Qed.

(** C2: for a series longer than [min_sample_size] spanning K calendar
    months, whose trials all succeed, the collaborator calls are those of the
    trials at the (length, start) pairs of [trial_schedule K], in order:
    lengths L = 1 .. K-1 and for each L the start indices 0 .. K-1-L, i.e.
    K - L trials for L; there are K(K-1)/2 trials, each training the model
    exactly once. *)
Theorem get_best_sample_size_trial_count (min_sample_size : nat)
  (self : ErrorEstimator) (df : Frame) (K : nat) :
  (min_sample_size < length df)%nat ->
  length (months_of df) = K ->
  (forall Li, In Li (trial_schedule K) ->
     exists x, snd (trial self df (months_of df) Li) = inr x) ->
  fst (get_best_sample_size min_sample_size self df)
    = flat_map (fun Li => fst (trial self df (months_of df) Li)) (trial_schedule K)
  /\ (forall L, (1 <= L <= K - 1)%nat ->
        filter (fun Li : nat * nat => (fst Li =? L)%nat) (trial_schedule K)
        = map (pair L) (seq 0 (K - L))
        /\ length (filter (fun Li : nat * nat => (fst Li =? L)%nat) (trial_schedule K))
           = (K - L)%nat)
  /\ length (trial_schedule K) = (K * (K - 1) / 2)%nat
  /\ length (filter is_train (fst (get_best_sample_size min_sample_size self df)))
     = (K * (K - 1) / 2)%nat.
Proof.
  intros Hlen HK Hok.
  assert (Hlog : fst (get_best_sample_size min_sample_size self df)
    = flat_map (fun Li => fst (trial self df (months_of df) Li)) (trial_schedule K)).
  { rewrite get_best_sample_size_search by assumption. rewrite HK.
    rewrite mfold_trials_ok by assumption. simpl.
    destruct (dd_get 1 _). simpl. apply app_nil_r. }
  split; [exact Hlog|]. split; [|split].
  - intros L HL. unfold trial_schedule. rewrite filter_schedule.
    replace ((1 <=? L) && (L <? 1 + (K - 1)))%nat with true
      by (symmetry; apply andb_true_iff; split; [apply Nat.leb_le | apply Nat.ltb_lt]; lia).
    split; [reflexivity|]. rewrite length_map, length_seq. reflexivity.
  - apply length_trial_schedule.
  - rewrite Hlog, count_train_calls by assumption. apply length_trial_schedule.
Qed.

(** ** C4 *)

Lemma ts_eqb_eq (a b : Timestamp) : ts_eqb a b = true <-> a = b.
Proof.
  destruct a as [y1 m1 d1 s1], b as [y2 m2 d2 s2]. unfold ts_eqb, ts_compare. simpl.
  split.
  - destruct (Z.compare_spec y1 y2); try discriminate; subst;
    destruct (Z.compare_spec m1 m2); try discriminate; subst;
    destruct (Z.compare_spec d1 d2); try discriminate; subst;
    destruct (Z.compare_spec s1 s2); try discriminate; subst; reflexivity.
  - intros [= -> -> -> ->]. rewrite !Z.compare_refl. reflexivity.
Qed.

Lemma filter_unique_key (right : RV) (t : Timestamp) :
  NoDup (map fst right) ->
  filter (fun tv => ts_eqb (fst tv) t) right =
  match find (fun tv => ts_eqb (fst tv) t) right with
  | Some tv => [tv]
  | None => []
  end.
Proof.
  induction right as [|tv right IH]; intro Hnd; [reflexivity|].
  inversion Hnd as [|? ? Hnotin Hnd']; subst. simpl.
  destruct (ts_eqb (fst tv) t) eqn:E.
  - apply ts_eqb_eq in E. f_equal.
    clear IH Hnd Hnd'. induction right as [|tv' right IH2]; [reflexivity|].
    simpl. destruct (ts_eqb (fst tv') t) eqn:E'.
    + apply ts_eqb_eq in E'. exfalso. apply Hnotin. simpl. left. congruence.
    + apply IH2. intro Hin. apply Hnotin. simpl. right. exact Hin.
  - apply IH. exact Hnd'.
Qed.

Lemma merge_index_aligned (left : list (Row * Q)) (right : RV) :
  NoDup (map fst right) -> merge_index left right = aligned left right.
Proof.
  intro Hnd. unfold merge_index, aligned. apply flat_map_ext. intro rc.
  rewrite filter_unique_key by exact Hnd.
  destruct (find _ right); reflexivity.
Qed.

Lemma Qsum_nonneg (l : list Q) : (forall x, In x l -> 0 <= x)%Q -> (0 <= Qsum l)%Q.
Proof.
  induction l as [|x l IH]; intro H; simpl; [apply Qle_refl|].
  apply (Qplus_le_compat 0 x 0 (Qsum l))%Q;
    [apply H; left; reflexivity | apply IH; intros; apply H; right; assumption].
Qed.

Lemma sq_err_nonneg (cr : Q * Q) : (0 <= sq_err cr)%Q.
Proof.
  unfold sq_err. pose proof (Qsqr_nonneg (fst cr - snd cr)) as H. exact H.
Qed.

(** C4: when a trial succeeds with error [e], the model trained on the train
    window, forecast [len(test)] steps, and the realized-volatility
    estimator ran on train ++ test with split [len(train)]; [e] is the sum,
    over the rows of the inner join on the index of the conditional-volatility
    series (in-sample then forecast values) with the realized series, of
    (conditional - realized)^2; [e >= 0]; and when the realized series has
    no duplicate index, the join keeps exactly the rows whose index is in both
    series, each once, unmatched rows dropped. *)
Theorem get_estimated_errors_sum_sq (self : ErrorEstimator) (train_df test_df : Frame)
  (e : Q) :
  snd (get_estimated_errors self train_df test_df) = inr e ->
  exists param predictions real_vol,
    train_model (model self) train_df = inr param
    /\ vol_forecast (model self) param (length test_df) = inr predictions
    /\ realized_vol_estimator self (train_df ++ test_df) (length train_df) = inr real_vol
    /\ length (conditional_volatility param ++ predictions) = length (train_df ++ test_df)
    /\ e = Qsum (map sq_err (merge_index
             (combine (train_df ++ test_df) (conditional_volatility param ++ predictions))
             real_vol))
    /\ (0 <= e)%Q
    /\ (NoDup (map fst real_vol) ->
        merge_index
          (combine (train_df ++ test_df) (conditional_volatility param ++ predictions))
          real_vol
        = aligned
          (combine (train_df ++ test_df) (conditional_volatility param ++ predictions))
          real_vol).
Proof.
  unfold get_estimated_errors, call_train, call_forecast, call_realized, bind_M, raise, ret_M.
  destruct (train_model (model self) train_df) as [ex|p] eqn:Ht; simpl; [discriminate|].
  destruct (vol_forecast (model self) p (length test_df)) as [ex|preds] eqn:Hf; simpl;
    [discriminate|].
  destruct (negb _) eqn:Hn; simpl; [discriminate|].
  destruct (realized_vol_estimator self (train_df ++ test_df) (length train_df))
    as [ex|rv] eqn:Hr; simpl; [discriminate|].
  intros [= <-].
  exists p, preds, rv.
  split; [first [reflexivity | exact Ht]|]. split; [first [reflexivity | exact Hf]|].
  split; [first [reflexivity | exact Hr]|].
  split; [apply negb_false_iff, Nat.eqb_eq in Hn; exact Hn|].
  split; [reflexivity|]. split.
  - apply Qsum_nonneg. intros x Hx. apply in_map_iff in Hx as [cr [<- _]].
    apply sq_err_nonneg.
  - apply merge_index_aligned.
Qed.

(** ** C5 *)

Lemma F_lt_Some_true (a b : Q) : (a < b)%Q -> F_lt (Some a) (Some b) = true.
Proof.
  intro H. simpl. destruct (Qle_bool b a) eqn:E; [|reflexivity].
  apply Qle_bool_iff in E. exfalso. apply (Qle_not_lt b a E H).
Qed.

Lemma F_lt_Some_false (a b : Q) : (b <= a)%Q -> F_lt (Some a) (Some b) = false.
Proof. intro H. simpl. apply Qle_bool_iff in H. rewrite H. reflexivity. Qed.

Lemma np_mean_nonempty (l : list Q) : l <> [] -> np_mean l = Some (arith_mean l).
Proof. destruct l; [congruence | reflexivity]. Qed.

Lemma select_fold_spec : forall items s0 q0,
  (forall kl, In kl items -> snd kl <> []) ->
  exists s q, fold_left select_step items (s0, Some q0) = (s, Some q) /\
  ((s = s0 /\ q = q0 /\ forall kl, In kl items -> ~ (arith_mean (snd kl) < q0)%Q) \/
   (exists pre l post, items = pre ++ (s, l) :: post /\ q = arith_mean l /\ (q < q0)%Q /\
      (forall kl, In kl pre -> (q < arith_mean (snd kl))%Q) /\
      (forall kl, In kl post -> ~ (arith_mean (snd kl) < q)%Q))).
Proof.
  induction items as [|[kx lx] rest IH]; intros s0 q0 Hne.
  - exists s0, q0. split; [reflexivity|]. left. repeat split. intros kl [].
  - assert (Hx : lx <> []) by exact (Hne (kx, lx) (or_introl eq_refl)).
    assert (Hrest : forall kl, In kl rest -> snd kl <> [])
      by (intros; apply Hne; right; assumption).
    cbn [fold_left]. unfold select_step at 2. cbn [fst snd].
    rewrite (np_mean_nonempty lx Hx).
    destruct (Qlt_le_dec (arith_mean lx) q0) as [Hlt|Hge].
    + rewrite (F_lt_Some_true _ _ Hlt).
      destruct (IH kx (arith_mean lx) Hrest) as (s & q & Hf & [(-> & -> & Hall)|Hb]).
      * exists kx, (arith_mean lx). split; [exact Hf|]. right.
        exists [], lx, rest. repeat split; try assumption. intros kl [].
      * destruct Hb as (pre & l & post & Heq & Hq & Hqlt & Hpre & Hpost).
        exists s, q. split; [exact Hf|]. right.
        exists ((kx, lx) :: pre), l, post. subst rest.
        split; [reflexivity|]. split; [exact Hq|].
        split; [apply (Qlt_trans _ _ _ Hqlt Hlt)|]. split; [|exact Hpost].
        intros kl [<-|Hin]; [exact Hqlt | apply Hpre; exact Hin].
    + rewrite (F_lt_Some_false _ _ Hge).
      destruct (IH s0 q0 Hrest) as (s & q & Hf & [(-> & -> & Hall)|Hb]).
      * exists s0, q0. split; [exact Hf|]. left. repeat split.
        intros kl [<-|Hin]; [apply Qle_not_lt; exact Hge | apply Hall; exact Hin].
      * destruct Hb as (pre & l & post & Heq & Hq & Hqlt & Hpre & Hpost).
        exists s, q. split; [exact Hf|]. right.
        exists ((kx, lx) :: pre), l, post. subst rest.
        split; [reflexivity|]. split; [exact Hq|]. split; [exact Hqlt|].
        split; [|exact Hpost].
        intros kl [<-|Hin]; [apply (Qlt_le_trans _ _ _ Hqlt Hge) | apply Hpre; exact Hin].
Qed.

Lemma seq_split : forall A x B a n, seq a n = A ++ x :: B ->
  (forall y, In y A -> (y < x)%nat) /\ (forall y, In y B -> (x < y)%nat).
Proof.
  induction A as [|z A IH]; intros x B a n H; destruct n as [|n]; try discriminate;
    cbn [seq app] in H; injection H as H1 H2.
  - split; [intros y []|]. intros y Hy. rewrite <- H2 in Hy. apply in_seq in Hy. lia.
  - destruct (IH x B (S a) n H2) as [HA HB]. split; [|exact HB].
    assert (Hx : In x (seq (S a) n)) by (rewrite H2; apply in_elt).
    apply in_seq in Hx. intros y [<-|Hy]; [lia | apply HA; exact Hy].
Qed.

Lemma keys_dd_append (k : nat) (x : Q) : forall d,
  map fst (dd_append k x d) =
  if existsb (Nat.eqb k) (map fst d) then map fst d else map fst d ++ [k].
Proof.
  induction d as [|[k' l] t IH]; [reflexivity|]. cbn [dd_append map existsb fst].
  destruct (k =? k')%nat eqn:E; simpl.
  - apply Nat.eqb_eq in E. subst. reflexivity.
  - rewrite IH. destruct (existsb _ _); reflexivity.
Qed.

Lemma nonempty_dd_append (k : nat) (x : Q) : forall d,
  (forall kl, In kl d -> snd kl <> []) ->
  forall kl, In kl (dd_append k x d) -> snd kl <> [].
Proof.
  induction d as [|[k' l] t IH]; intros H kl Hin.
  - destruct Hin as [<-|[]]. discriminate.
  - cbn [dd_append] in Hin. destruct (k =? k')%nat.
    + destruct Hin as [<-|Hin]; [|apply H; right; exact Hin].
      simpl. destruct l; discriminate.
    + destruct Hin as [<-|Hin]; [apply H; left; reflexivity|].
      apply (IH (fun kl H' => H kl (or_intror H')) kl Hin).
Qed.

(** [errors[L]] read without insertion. *)
Definition dd_lookup (k : nat) (d : Errors) : list Q :=
  match find (fun kl => (fst kl =? k)%nat) d with Some (_, l) => l | None => [] end.

Lemma dd_lookup_cons (L k : nat) (l : list Q) (d : Errors) :
  dd_lookup L ((k, l) :: d) = if (k =? L)%nat then l else dd_lookup L d.
Proof. unfold dd_lookup. simpl. destruct (k =? L)%nat; reflexivity. Qed.

Lemma dd_lookup_append (k L : nat) (x : Q) : forall d,
  dd_lookup L (dd_append k x d) =
  if (k =? L)%nat then dd_lookup L d ++ [x] else dd_lookup L d.
Proof.
  induction d as [|[k' l] t IH]; cbn [dd_append].
  - rewrite dd_lookup_cons. destruct (k =? L)%nat; reflexivity.
  - destruct (Nat.eqb_spec k k') as [->|Hne]; rewrite !dd_lookup_cons.
    + destruct (k' =? L)%nat; reflexivity.
    + rewrite IH. destruct (Nat.eqb_spec k' L), (Nat.eqb_spec k L); try reflexivity.
      exfalso. congruence.
Qed.

Lemma dd_lookup_In (L : nat) (l : list Q) : forall d,
  NoDup (map fst d) -> In (L, l) d -> dd_lookup L d = l.
Proof.
  induction d as [|[k' l'] t IH]; intros Hnd Hin; [destruct Hin|].
  inversion Hnd as [|? ? Hnotin Hnd']; subst. unfold dd_lookup in *. cbn [find fst].
  destruct Hin as [Heq|Hin].
  - injection Heq as -> ->. rewrite Nat.eqb_refl. reflexivity.
  - destruct (Nat.eqb_spec k' L) as [->|Hne]; [|apply IH; assumption].
    exfalso. apply Hnotin. apply (in_map fst) in Hin. exact Hin.
Qed.

Local Open Scope nat_scope.

Section Accumulator.
Variable V : nat * nat -> Q.

Definition acc_fold (l : list (nat * nat)) (d : Errors) : Errors :=
  fold_left (fun e Li => dd_append (fst Li) (V Li) e) l d.

Lemma acc_fold_lookup (L : nat) : forall l d,
  dd_lookup L (acc_fold l d) =
  dd_lookup L d ++ map V (filter (fun Li : nat * nat => (fst Li =? L)%nat) l).
Proof.
  unfold acc_fold. induction l as [|Li l IH]; intro d; simpl.
  - symmetry. apply app_nil_r.
  - rewrite IH, dd_lookup_append. destruct (fst Li =? L)%nat; simpl.
    + rewrite <- app_assoc. reflexivity.
    + reflexivity.
Qed.

Lemma acc_fold_nonempty : forall l d,
  (forall kl, In kl d -> snd kl <> []) ->
  forall kl, In kl (acc_fold l d) -> snd kl <> [].
Proof.
  unfold acc_fold. induction l as [|Li l IH]; intros d H; simpl; [exact H|].
  apply IH. apply nonempty_dd_append. exact H.
Qed.

Lemma acc_fold_keys_same (L : nat) : forall l d,
  In L (map fst d) -> (forall p, In p l -> fst p = L) ->
  map fst (acc_fold l d) = map fst d.
Proof.
  unfold acc_fold. induction l as [|Li l IH]; intros d HL Hl; simpl; [reflexivity|].
  assert (Hkeys : map fst (dd_append (fst Li) (V Li) d) = map fst d).
  { rewrite keys_dd_append, (Hl Li (or_introl eq_refl)).
    replace (existsb (Nat.eqb L) (map fst d)) with true; [reflexivity|].
    symmetry. apply existsb_exists. exists L. split; [exact HL | apply Nat.eqb_refl]. }
  rewrite IH; [exact Hkeys | rewrite Hkeys; exact HL | intros; apply Hl; right; assumption].
Qed.

Lemma acc_fold_keys_schedule (K : nat) : forall n, (n <= K - 1)%nat ->
  map fst (acc_fold (flat_map (fun L => map (pair L) (seq 0 (K - L))) (seq 1 n)) [])
  = seq 1 n.
Proof.
  induction n as [|n IH]; intro Hn; [reflexivity|].
  rewrite seq_S, flat_map_app. unfold acc_fold in *. rewrite fold_left_app.
  cbn [flat_map]. rewrite app_nil_r.
  replace (K - (1 + n))%nat%nat with (S (K - (1 + n)%nat - 1)) by lia.
  cbn [seq map fold_left fst].
  set (d := fold_left (fun (e : Errors) (Li : nat * nat) => dd_append (fst Li) (V Li) e)
              (flat_map (fun L => map (pair L) (seq 0 (K - L))) (seq 1 n)) []).
  assert (Hd : map fst d = seq 1 n) by (apply IH; lia).
  assert (Hkeys : map fst (dd_append (1 + n)%nat (V (1 + n, 0%nat)) d) = seq 1 n ++ [1 + n]%nat).
  { rewrite keys_dd_append, Hd.
    replace (existsb (Nat.eqb (1 + n)%nat) (seq 1 n)) with false; [reflexivity|].
    symmetry. apply not_true_iff_false. intro E. apply existsb_exists in E as [y [Hy E]].
    apply Nat.eqb_eq in E. apply in_seq in Hy. lia. }
  fold (acc_fold (map (pair (1 + n)%nat) (seq 1 (K - (1 + n)%nat - 1)))
                 (dd_append (1 + n)%nat (V (1 + n, 0%nat)) d)).
  rewrite (acc_fold_keys_same (1 + n)%nat); [exact Hkeys | | ].
  - rewrite Hkeys. apply in_or_app. right. left. reflexivity.
  - intros p Hp. apply in_map_iff in Hp as [i [<- _]]. reflexivity.
Qed.

End Accumulator.

Lemma mfold_success_inv (self : ErrorEstimator) (df : Frame) (months : list YM) :
  forall l errs r, snd (mfold (trial_step self df months) errs l) = inr r ->
  forall Li, In Li l -> exists x, snd (trial self df months Li) = inr x.
Proof.
  induction l as [|Lj l IH]; intros errs r H Li Hin; [destruct Hin|].
  cbn [mfold] in H.
  destruct (trial self df months Lj) as [w [e|x]] eqn:Et.
  - assert (Hs : trial_step self df months errs Lj = (w, inl e))
      by (unfold trial_step; rewrite Et; reflexivity).
    rewrite Hs in H. discriminate.
  - assert (Hs : trial_step self df months errs Lj = (w ++ [], inr (dd_append (fst Lj) x errs)))
      by (unfold trial_step; rewrite Et; reflexivity).
    rewrite Hs in H. cbn [bind_M] in H.
    destruct (mfold (trial_step self df months) (dd_append (fst Lj) x errs) l)
      as [w' r'] eqn:Em.
    simpl in H. destruct Hin as [<-|Hin].
    + exists x. rewrite Et. reflexivity.
    + apply (IH (dd_append (fst Lj) x errs) r); [rewrite Em; exact H | exact Hin].
Qed.

(** C5: when the search runs (series longer than [min_sample_size], K >= 2
    months) and returns (s, m): the accumulator has the lengths 1 .. K-1 in
    insertion order; the list of length L holds its K - L trial errors in
    trial order and its reported error is their arithmetic mean; m is the
    mean of length s; no length has a mean strictly below m; and every
    length before s has a mean strictly above m. Hence the best value starts
    at length 1's mean, only a strictly smaller mean replaces it, and the
    first length reaching the minimum wins ties. *)
Theorem get_best_sample_size_selects_first_min (min_sample_size : nat)
  (self : ErrorEstimator) (df : Frame) (K s : nat) (m : F) :
  min_sample_size < length df ->
  length (months_of df) = K ->
  2 <= K ->
  snd (get_best_sample_size min_sample_size self df) = inr (s, m) ->
  exists errors,
    snd (run_lengths self df (months_of df) (seq 1 (K - 1)) []) = inr errors
    /\ map fst errors = seq 1 (K - 1)
    /\ (forall L l, In (L, l) errors ->
          l = map (fun i => trial_val self df (months_of df) (L, i)) (seq 0 (K - L))
          /\ l <> [] /\ np_mean l = Some (arith_mean l))
    /\ (exists l, In (s, l) errors /\ m = np_mean l
        /\ (forall L l', In (L, l') errors -> ~ (arith_mean l' < arith_mean l)%Q)
        /\ (forall L l', In (L, l') errors -> L < s -> (arith_mean l < arith_mean l')%Q)).
Proof.
  intros Hlen HK HK2 Hres.
  rewrite get_best_sample_size_search in Hres by exact Hlen. rewrite HK in Hres.
  destruct (mfold (trial_step self df (months_of df)) [] (trial_schedule K))
    as [w r] eqn:Hm.
  destruct r as [e|errs]; [discriminate|].
  assert (Hok := mfold_success_inv self df (months_of df) (trial_schedule K) [] errs
                   ltac:(rewrite Hm; reflexivity)).
  rewrite mfold_trials_ok in Hm by exact Hok. injection Hm as _ Herrs.
  fold (acc_fold (trial_val self df (months_of df)) (trial_schedule K) []) in Herrs.
  assert (Hkeys : map fst errs = seq 1 (K - 1)).
  { subst errs. apply acc_fold_keys_schedule. lia. }
  assert (Hne : forall kl, In kl errs -> snd kl <> []).
  { subst errs. apply acc_fold_nonempty. intros kl []. }
  assert (Hlists : forall L l, In (L, l) errs ->
            l = map (fun i => trial_val self df (months_of df) (L, i)) (seq 0 (K - L))).
  { intros L l Hin.
    assert (HL : In L (seq 1 (K - 1))) by (rewrite <- Hkeys; apply (in_map fst) in Hin; exact Hin).
    apply in_seq in HL.
    rewrite <- (dd_lookup_In L l errs); [| rewrite Hkeys; apply seq_NoDup | exact Hin].
    rewrite <- Herrs, acc_fold_lookup. unfold trial_schedule. rewrite filter_schedule.
    replace ((1 <=? L) && (L <? 1 + (K - 1))) with true
      by (symmetry; apply andb_true_iff; split; [apply Nat.leb_le | apply Nat.ltb_lt]; lia).
    simpl. rewrite map_map. reflexivity. }
  exists errs. split.
  { rewrite run_lengths_mfold. fold (trial_schedule K). rewrite <- HK.
    rewrite mfold_trials_ok by (rewrite HK; exact Hok). rewrite HK. simpl.
    exact (f_equal inr Herrs). }
  split; [exact Hkeys|]. split.
  { intros L l Hin. split; [apply Hlists; exact Hin|].
    assert (Hl : l <> []) by exact (Hne (L, l) Hin).
    split; [exact Hl | apply np_mean_nonempty; exact Hl]. }
  (* the selection loop *)
  destruct errs as [|[k1 l1] rest].
  { destruct K as [|[|K]]; [lia | lia | discriminate]. }
  assert (Hk1 : k1 = 1).
  { destruct K as [|[|K]]; [lia | lia |]. simpl in Hkeys. injection Hkeys as H1 _. exact H1. }
  subst k1.
  assert (Hl1 : l1 <> []) by exact (Hne (1, l1) (or_introl eq_refl)).
  cbn [bind_M dd_get find fst snd Nat.eqb ret_M fold_left] in Hres.
  unfold select_step at 2 in Hres. cbn [fst snd] in Hres.
  rewrite (np_mean_nonempty l1 Hl1) in Hres.
  rewrite (F_lt_Some_false _ _ (Qle_refl _)) in Hres. simpl in Hres.
  assert (Hrest : forall kl, In kl rest -> snd kl <> []) by (intros; apply Hne; right; assumption).
  destruct (select_fold_spec rest 1 (arith_mean l1) Hrest)
    as (s' & q & Hf & [(-> & -> & Hall)|Hb]);
    (match type of Hf with
     | _ = ?r => assert (Hsm : r = (s, m))
                   by (injection Hres as Hres; exact (eq_trans (eq_sym Hf) Hres))
     end; injection Hsm as <- <-).
  - exists l1. split; [left; reflexivity|]. split; [symmetry; apply np_mean_nonempty; exact Hl1|].
    split.
    + intros L l' [Heq|Hin]; [injection Heq as _ <-; apply Qlt_irrefl|].
      exact (Hall (L, l') Hin).
    + intros L l' Hin HL. exfalso.
      assert (HLk : In L (seq 1 (K - 1)))
        by (rewrite <- Hkeys; apply (in_map fst) in Hin; exact Hin).
      apply in_seq in HLk. lia.
  - destruct Hb as (pre & l & post & Heq & Hq & Hqlt & Hpre & Hpost). subst rest q.
    exists l. split; [right; apply in_elt|].
    split; [symmetry; apply np_mean_nonempty; apply (Hne (s', l)); right; apply in_elt|].
    split.
    + intros L l' Hin. destruct Hin as [Heq|Hin].
      { injection Heq as _ <-. apply Qle_not_lt, Qlt_le_weak. exact Hqlt. }
      apply in_app_or in Hin as [Hin|[Heq|Hin]].
      * apply Qle_not_lt, Qlt_le_weak. exact (Hpre (L, l') Hin).
      * injection Heq as _ <-. apply Qlt_irrefl.
      * exact (Hpost (L, l') Hin).
    + intros L l' Hin HL.
      assert (Hsplit : seq 1 (K - 1) = map fst ((1, l1) :: pre) ++ s' :: map fst post)
        by (rewrite <- Hkeys; simpl; rewrite map_app; reflexivity).
      destruct (seq_split _ _ _ _ _ Hsplit) as [_ HB].
      destruct Hin as [Heq|Hin].
      { injection Heq as _ <-. exact Hqlt. }
      apply in_app_or in Hin as [Hin|[Heq|Hin]].
      * exact (Hpre (L, l') Hin).
      * injection Heq as <- _. lia.
      * exfalso. apply (in_map fst) in Hin. specialize (HB L Hin). simpl in HB. lia.
Qed.

(** ** C6 *)

Lemma str_lower_empty : str_lower "" = ""%string.
Proof. reflexivity. Qed.

(** C6: constructing a [VolatilityEstimator] raises a [ValueError] when the
    model type is [None], the empty string, or a string whose lowercase is
    not a supported model type; with "close-to-close" in any letter case
    (a string whose lowercase is "close-to-close") it succeeds and stores the
    lowercase name. *)
Theorem VolatilityEstimator_init_config (cl : bool) (freq : Z) :
  VolatilityEstimator_init None cl freq = inl (ValueError ModelTypeRequired)
  /\ VolatilityEstimator_init (Some ""%string) cl freq = inl (ValueError ModelTypeRequired)
  /\ (forall s, str_lower s <> VolatilityModelsMap_CloseToClose ->
        exists msg, VolatilityEstimator_init (Some s) cl freq = inl (ValueError msg))
  /\ (forall s, str_lower s = VolatilityModelsMap_CloseToClose ->
        VolatilityEstimator_init (Some s) cl freq
        = inr (mkVE VolatilityModelsMap_CloseToClose cl freq)).
Proof.
  split; [reflexivity|]. split; [reflexivity|]. split.
  - intros s Hs. unfold VolatilityEstimator_init.
    destruct (String.eqb s "") eqn:E; [eexists; reflexivity|].
    cbn [existsb]. rewrite orb_false_r.
    destruct (String.eqb (str_lower s) VolatilityModelsMap_CloseToClose) eqn:E2.
    + apply String.eqb_eq in E2. contradiction.
    + eexists; reflexivity.
  - intros s Hs. unfold VolatilityEstimator_init.
    destruct (String.eqb s "") eqn:E.
    + apply String.eqb_eq in E. subst s. discriminate Hs.
    + rewrite Hs. reflexivity.
Qed.

(** ** C7 *)

Lemma VolatilityEstimator_init_inv (mt : option string) (cl : bool) (freq : Z)
  (v : VolatilityEstimator) :
  VolatilityEstimator_init mt cl freq = inr v ->
  v = mkVE VolatilityModelsMap_CloseToClose cl freq.
Proof.
  unfold VolatilityEstimator_init. destruct mt as [s|]; [|discriminate].
  destruct (String.eqb s ""); [discriminate|].
  cbn [existsb]. rewrite orb_false_r.
  destruct (String.eqb (str_lower s) VolatilityModelsMap_CloseToClose) eqn:E;
    [|discriminate].
  apply String.eqb_eq in E. rewrite E. intros [= <-]. reflexivity.
Qed.

(** C7: on a constructed [VolatilityEstimator], [get_realized_vol df window]
    raises the sizing [ValueError] when [len(df) <= window]; when
    [len(df) > window] it does not raise it and returns what the
    close-to-close estimator returns. *)
Theorem get_realized_vol_sizing (ctc : Frame -> nat -> bool -> Exn + RV)
  (mt : option string) (cl : bool) (freq : Z) (v : VolatilityEstimator)
  (df : Frame) (window : nat) :
  VolatilityEstimator_init mt cl freq = inr v ->
  ((length df <= window)%nat ->
     get_realized_vol ctc v df window
     = inl (ValueError (DatasetTooSmall (length df) window)))
  /\ ((window < length df)%nat ->
     get_realized_vol ctc v df window
     = match ctc df window cl with inl e => inl e | inr r => inr (Some r) end).
Proof.
  intro Hinit. apply VolatilityEstimator_init_inv in Hinit. subst v.
  unfold get_realized_vol. split; intro H.
  - apply Nat.leb_le in H. rewrite H. reflexivity.
  - apply Nat.leb_gt in H. rewrite H. simpl. reflexivity.
Qed.

(** ** C9 *)

(** C9: [get_residuals] gives, row for row, the residual r - mean, its
    absolute value and its square, the mean taken over all returns. *)
Theorem get_residuals_rows (rets : list Q) :
  get_residuals rets =
  map (fun r => (Some (r - arith_mean rets), Some (Qabs (r - arith_mean rets)),
                 Some ((r - arith_mean rets) * (r - arith_mean rets))))%Q rets.
Proof.
  destruct rets as [|r0 rets]; [reflexivity|].
  unfold get_residuals, series_mean.
  rewrite np_mean_nonempty by discriminate.
  rewrite map_map. reflexivity.
Qed.

(** ** C3 *)

(** C3: on [df_month_starts] (daily rows at midnight, two on a 1st of the
    month), the first pair of the search (length 1, start 0) has a train
    window and a test window that share the row of 2020-02-01, and its test
    window holds the row of 2020-03-01 of the next month: the model is
    trained on that train window and the realized volatility is computed on
    their concatenation. *)
Lemma get_best_sample_size_windows_overlap :
  let df := df_month_starts in
  let train_df := train_window df (months_of df) 1 0 in
  let test_df := test_window df (months_of df) 1 0 in
  In (CTrain train_df) (fst (get_best_sample_size 2 unit_ee df))
  /\ In (CRealized (train_df ++ test_df) (length train_df))
        (fst (get_best_sample_size 2 unit_ee df))
  /\ In (day 2020 2 1) train_df /\ In (day 2020 2 1) test_df
  /\ In (day 2020 3 1) test_df
  /\ row_ym (day 2020 3 1) <> row_ym (day 2020 2 1).
Proof.
  vm_compute. split; [left; reflexivity|]. split; [right; right; left; reflexivity|].
  split; [right; left; reflexivity|]. split; [left; reflexivity|].
  split; [right; right; left; reflexivity|]. discriminate.
Qed.

(** ** Witnesses: the theorems applied at concrete inputs *)

Lemma get_best_sample_size_short_series_witness :
  (length df_month_starts <= 10)%nat /\
  get_best_sample_size 10 unit_ee df_month_starts = ([], inr (5%nat, Some 0%Q)).
Proof.
  split; [simpl; lia|].
  apply (get_best_sample_size_short_series 10 unit_ee df_month_starts). simpl. lia.
Defined.

Lemma get_best_sample_size_trial_count_witness :
  length (filter is_train (fst (get_best_sample_size 2 unit_ee df_mid_months))) = 3%nat.
Proof.
  apply (get_best_sample_size_trial_count 2 unit_ee df_mid_months 3).
  - simpl. lia.
  - reflexivity.
  - intros Li HLi. vm_compute in HLi.
    destruct HLi as [<-|[<-|[<-|[]]]]; eexists; reflexivity.
Defined.

Lemma get_estimated_errors_sum_sq_witness :
  snd (get_estimated_errors unit_ee [day 2020 1 15] [day 2020 2 14]) = inr 2%Q
  /\ (0 <= 2)%Q.
Proof.
  split; [reflexivity|].
  destruct (get_estimated_errors_sum_sq unit_ee [day 2020 1 15] [day 2020 2 14] 2%Q
              eq_refl) as (p & pr & rv & _ & _ & _ & _ & _ & H & _).
  exact H.
Defined.

Lemma get_best_sample_size_selects_first_min_witness :
  snd (get_best_sample_size 2 unit_ee df_mid_months) = inr (1%nat, Some (8 # 2)%Q)
  /\ exists errors,
       snd (run_lengths unit_ee df_mid_months (months_of df_mid_months) (seq 1 2) [])
       = inr errors
       /\ map fst errors = seq 1 2.
Proof.
  split; [reflexivity|].
  destruct (get_best_sample_size_selects_first_min 2 unit_ee df_mid_months 3 1
              (Some (8 # 2)%Q) ltac:(simpl; lia) eq_refl ltac:(lia) eq_refl)
    as (errors & H1 & H2 & _).
  exists errors. split; assumption.
Defined.

Lemma get_realized_vol_sizing_witness :
  VolatilityEstimator_init (Some "Close-To-Close"%string) true 0
    = inr (mkVE VolatilityModelsMap_CloseToClose true 0)
  /\ get_realized_vol unit_ctc (mkVE VolatilityModelsMap_CloseToClose true 0)
       df_one_month 2 = inl (ValueError (DatasetTooSmall 2 2)).
Proof.
  split; [reflexivity|].
  apply (proj1 (get_realized_vol_sizing unit_ctc (Some "Close-To-Close"%string) true 0
                  (mkVE VolatilityModelsMap_CloseToClose true 0) df_one_month 2
                  eq_refl)).
  simpl. lia.
Defined.

Lemma get_best_sample_size_trial_failure_propagates_witness :
  snd (get_best_sample_size 2 picky_ee df_mid_months)
  = inl (ValueError (DatasetTooSmall 4 2)).
Proof.
  rewrite (get_best_sample_size_trial_failure_propagates 2 picky_ee df_mid_months
             [] (1, 0)%nat [(1, 1); (2, 0)]%nat (ValueError (DatasetTooSmall 4 2))).
  - reflexivity.
  - simpl. lia.
  - reflexivity.
  - intros Lj [].
  - reflexivity.
Defined.

Lemma get_best_sample_size_single_month_witness :
  get_best_sample_size 1 unit_ee df_one_month = ([], inr (1%nat, None)).
Proof.
  destruct (get_best_sample_size_single_month 1 unit_ee df_one_month (2020, 1)%Z)
    as [H _].
  - simpl. lia.
  - intros r [<-|[<-|[]]]; reflexivity.
  - exact H.
Defined.

(** ** Further properties of the code *)

Lemma ts_le_iff (a b : Timestamp) :
  ts_le a b = true <->
  (ts_year a < ts_year b \/ ts_year a = ts_year b /\
   (ts_month a < ts_month b \/ ts_month a = ts_month b /\
    (ts_day a < ts_day b \/ ts_day a = ts_day b /\ ts_sec a <= ts_sec b)))%Z.
Proof.
  unfold ts_le, ts_compare.
  destruct (Z.compare_spec (ts_year a) (ts_year b));
  [destruct (Z.compare_spec (ts_month a) (ts_month b));
   [destruct (Z.compare_spec (ts_day a) (ts_day b));
    [destruct (Z.compare_spec (ts_sec a) (ts_sec b))| |]| |]| |];
  split; intro H'; try discriminate; try reflexivity; lia.
Qed.

Lemma ym_lt_iff (a b : YM) :
  ym_lt a b <-> (fst a < fst b \/ fst a = fst b /\ snd a < snd b)%Z.
Proof.
  unfold ym_lt, ym_compare.
  destruct (Z.compare_spec (fst a) (fst b));
  [destruct (Z.compare_spec (snd a) (snd b))| |];
  split; intro H'; try discriminate; try reflexivity; lia.
Qed.

Lemma ym_compare_Eq (a b : YM) : ym_compare a b = Eq -> a = b.
Proof.
  destruct a as [y1 m1], b as [y2 m2]. unfold ym_compare. simpl.
  destruct (Z.compare_spec y1 y2); [|discriminate|discriminate].
  destruct (Z.compare_spec m1 m2); [|discriminate|discriminate]. congruence.
Qed.

Lemma ym_lt_trans (a b c : YM) : ym_lt a b -> ym_lt b c -> ym_lt a c.
Proof. rewrite !ym_lt_iff. lia. Qed.

Lemma ym_compare_Gt (a b : YM) : ym_compare a b = Gt -> ym_lt b a.
Proof.
  rewrite ym_lt_iff. unfold ym_compare.
  destruct (Z.compare_spec (fst a) (fst b));
  [destruct (Z.compare_spec (snd a) (snd b))| |]; intro; try discriminate; lia.
Qed.

Lemma in_insert_month (k x : YM) (l : list YM) :
  In x (insert_month k l) <-> x = k \/ In x l.
Proof.
  induction l as [|h t IH]; simpl; [intuition congruence|].
  destruct (ym_compare k h) eqn:E; simpl.
  - apply ym_compare_Eq in E. subst h. intuition congruence.
  - intuition congruence.
  - rewrite IH. intuition congruence.
Qed.

Lemma insert_month_sorted (k : YM) : forall l,
  StronglySorted ym_lt l -> StronglySorted ym_lt (insert_month k l).
Proof.
  induction l as [|h t IH]; intro Hs; simpl.
  - repeat constructor.
  - inversion Hs as [|? ? Ht Hh]; subst.
    destruct (ym_compare k h) eqn:E.
    + exact Hs.
    + constructor; [exact Hs|]. constructor; [exact E|].
      eapply Forall_impl; [|exact Hh]. intros y Hy. exact (ym_lt_trans _ _ _ E Hy).
    + constructor; [apply IH; exact Ht|].
      apply Forall_forall. intros y Hy. apply in_insert_month in Hy as [->|Hy].
      * apply ym_compare_Gt. exact E.
      * rewrite Forall_forall in Hh. apply Hh. exact Hy.
Qed.

Lemma StronglySorted_ym_NoDup : forall l, StronglySorted ym_lt l -> NoDup l.
Proof.
  induction l as [|h t IH]; intro Hs; constructor.
  - inversion Hs as [|? ? _ Hh]; subst. intro Hin.
    rewrite Forall_forall in Hh. specialize (Hh h Hin).
    apply ym_lt_iff in Hh. lia.
  - inversion Hs; subst. apply IH. assumption.
Qed.

Lemma months_of_spec (df : Frame) :
  StronglySorted ym_lt (months_of df) /\ NoDup (months_of df)
  /\ (forall k, In k (months_of df) <-> exists r, In r df /\ row_ym r = k).
Proof.
  assert (Hgen : forall rows acc, StronglySorted ym_lt acc ->
    StronglySorted ym_lt (fold_left (fun acc r => insert_month (row_ym r) acc) rows acc)
    /\ (forall k, In k (fold_left (fun acc r => insert_month (row_ym r) acc) rows acc)
                  <-> In k acc \/ exists r, In r rows /\ row_ym r = k)).
  { induction rows as [|r rows IH]; intros acc Hs; simpl.
    - split; [exact Hs|]. intro k. split; [tauto|]. intros [H|[r [[] _]]]. exact H.
    - destruct (IH (insert_month (row_ym r) acc) (insert_month_sorted _ _ Hs)) as [H1 H2].
      split; [exact H1|]. intro k. rewrite H2, in_insert_month. split.
      + intros [[->|H]|[r' [Hr' Hk]]]; [right; exists r; auto | left; exact H |
          right; exists r'; auto].
      + intros [H|[r' [[<-|Hr'] Hk]]]; [left; right; exact H | left; left; auto |
          right; exists r'; auto]. }
  destruct (Hgen df [] (SSorted_nil _)) as [H1 H2].
  split; [exact H1|]. split; [apply StronglySorted_ym_NoDup; exact H1|].
  intro k. unfold months_of. rewrite H2. simpl. tauto.
Qed.


Lemma StronglySorted_nth {A} (R : A -> A -> Prop) (d : A) : forall l i j,
  StronglySorted R l -> i < j < length l -> R (nth i l d) (nth j l d).
Proof.
  induction l as [|h t IH]; intros i j Hs Hij; simpl in Hij; [lia|].
  inversion Hs as [|? ? Ht Hh]; subst.
  destruct i as [|i], j as [|j]; try lia; simpl.
  - rewrite Forall_forall in Hh. apply Hh. apply nth_In. lia.
  - apply IH; [exact Ht | lia].
Qed.

Lemma in_slice (df : Frame) (a b : Timestamp) (r : Row) :
  In r (slice df a b) <-> In r df /\ ts_le a (idx r) = true /\ ts_le (idx r) b = true.
Proof. unfold slice. rewrite filter_In, andb_true_iff. tauto. Qed.

Lemma month_row_exists (df : Frame) (n : nat) :
  n < length (months_of df) ->
  exists r, In r df /\ row_ym r = nth n (months_of df) (0, 0)%Z.
Proof.
  intro Hn. destruct (months_of_spec df) as (_ & _ & Hm).
  apply Hm. apply nth_In. exact Hn.
Qed.

Lemma search_windows_months (df : Frame) (L i : nat) :
  (forall r, In r df -> (1 <= ts_day (idx r))%Z /\ (0 <= ts_sec (idx r))%Z) ->
  1 <= L -> i + L < length (months_of df) ->
  (forall r, In r df -> row_ym r = nth i (months_of df) (0, 0)%Z ->
     In r (train_window df (months_of df) L i))
  /\ (forall r, In r df -> row_ym r = nth (i + L) (months_of df) (0, 0)%Z ->
     In r (test_window df (months_of df) L i))
  /\ train_window df (months_of df) L i <> []
  /\ test_window df (months_of df) L i <> [].
Proof.
  intros Hwf HL Hi.
  destruct (months_of_spec df) as (Hs & _ & _).
  assert (Hlt : ym_lt (nth i (months_of df) (0, 0)%Z) (nth (i + L) (months_of df) (0, 0)%Z))
    by (apply StronglySorted_nth; [exact Hs | lia]).
  apply ym_lt_iff in Hlt.
  assert (Htrain : forall r, In r df -> row_ym r = nth i (months_of df) (0, 0)%Z ->
            In r (train_window df (months_of df) L i)).
  { intros r Hr Hym. unfold train_window. apply in_slice.
    destruct (Hwf r Hr) as [Hd Hsec].
    unfold row_ym in Hym. rewrite <- Hym in Hlt |- *. unfold month_start. simpl in Hlt |- *.
    split; [exact Hr|]. split; apply ts_le_iff; simpl; lia. }
  assert (Htest : forall r, In r df -> row_ym r = nth (i + L) (months_of df) (0, 0)%Z ->
            In r (test_window df (months_of df) L i)).
  { intros r Hr Hym. unfold test_window. apply in_slice.
    destruct (Hwf r Hr) as [Hd Hsec].
    unfold row_ym in Hym. rewrite <- Hym. unfold month_start, add_month. simpl.
    split; [exact Hr|]. split; apply ts_le_iff; simpl; [lia|].
    destruct (Z.eqb_spec (ts_month (idx r)) 12); simpl; lia. }
  split; [exact Htrain|]. split; [exact Htest|]. split.
  - destruct (month_row_exists df i ltac:(lia)) as [r [Hr Hym]].
    intro Hnil. specialize (Htrain r Hr Hym). rewrite Hnil in Htrain. destruct Htrain.
  - destruct (month_row_exists df (i + L) Hi) as [r [Hr Hym]].
    intro Hnil. specialize (Htest r Hr Hym). rewrite Hnil in Htest. destruct Htest.
Qed.

(** X2: in the search (1 <= L, i + L < K), when every row has a day at least
    1 and a non-negative time of day, the train window holds every row of
    month [months[i]] and the test window every row of month [months[i+L]];
    hence neither window is empty. *)
Theorem search_windows_hold_their_months (df : Frame) (L i : nat) :
  (forall r, In r df -> (1 <= ts_day (idx r))%Z /\ (0 <= ts_sec (idx r))%Z) ->
  1 <= L -> i + L < length (months_of df) ->
  (forall r, In r df -> row_ym r = nth i (months_of df) (0, 0)%Z ->
     In r (train_window df (months_of df) L i))
  /\ (forall r, In r df -> row_ym r = nth (i + L) (months_of df) (0, 0)%Z ->
     In r (test_window df (months_of df) L i))
  /\ train_window df (months_of df) L i <> []
  /\ test_window df (months_of df) L i <> [].
Proof. exact (search_windows_months df L i). Qed.

(** X3: when all timestamps are well formed and no row lies at midnight of
    the 1st of a month, the train and test windows of every pair of the
    search (i + L < K) share no row, and every row of the test window is in
    the month [months[i+L]]. *)
Theorem search_windows_disjoint_without_month_start_rows (df : Frame) (L i : nat) :
  (forall r, In r df -> wf_ts (idx r)) ->
  (forall r, In r df -> ts_day (idx r) <> 1 \/ ts_sec (idx r) <> 0)%Z ->
  i + L < length (months_of df) ->
  (forall r, In r (train_window df (months_of df) L i) ->
     ~ In r (test_window df (months_of df) L i))
  /\ (forall r, In r (test_window df (months_of df) L i) ->
     row_ym r = nth (i + L) (months_of df) (0, 0)%Z).
Proof.
  intros Hwf Hnot Hi.
  destruct (month_row_exists df (i + L) Hi) as [r0 [Hr0 Hym0]].
  assert (Hk : (1 <= snd (nth (i + L) (months_of df) (0, 0)%Z) <= 12)%Z).
  { rewrite <- Hym0. unfold row_ym. simpl. destruct (Hwf r0 Hr0) as [Hm _]. exact Hm. }
  destruct (nth (i + L) (months_of df) (0, 0)%Z) as [ky km] eqn:Ek. simpl in Hk.
  split.
  - intros r Htr Hte. unfold train_window, test_window in *. rewrite Ek in Htr, Hte.
    apply in_slice in Htr as (Hr & _ & H1). apply in_slice in Hte as (_ & H2 & _).
    apply ts_le_iff in H1. apply ts_le_iff in H2.
    unfold month_start in H1, H2. simpl in H1, H2.
    destruct (Hnot r Hr); lia.
  - intros r Hte. unfold test_window in Hte. rewrite Ek in Hte.
    apply in_slice in Hte as (Hr & H1 & H2).
    apply ts_le_iff in H1. apply ts_le_iff in H2.
    destruct (Hwf r Hr) as (Hm & Hd & Hs).
    unfold month_start, add_month in H1, H2. simpl in H1, H2.
    unfold row_ym.
    assert (Hyk : ts_year (idx r) = ky /\ ts_month (idx r) = km).
    { destruct (Z.eqb_spec km 12); simpl in H2; destruct (Hnot r Hr); lia. }
    destruct Hyk as [-> ->]. reflexivity.
Qed.

(** X4: when the [ErrorEstimator] uses a constructed [VolatilityEstimator]
    as its realized-volatility estimator, the call
    [get_realized_vol(train ++ test, len(train))] of a trial of the search
    (1 <= L, i + L < K, rows with day at least 1 and non-negative time of
    day) never raises the sizing error: the concatenation is longer than the
    train window, and the call returns what the close-to-close estimator
    returns. *)
Theorem search_realized_vol_never_too_small (ctc : Frame -> nat -> bool -> Exn + RV)
  (mt : option string) (cl : bool) (freq : Z) (v : VolatilityEstimator)
  (df : Frame) (L i : nat) :
  VolatilityEstimator_init mt cl freq = inr v ->
  (forall r, In r df -> (1 <= ts_day (idx r))%Z /\ (0 <= ts_sec (idx r))%Z) ->
  1 <= L -> i + L < length (months_of df) ->
  let tr := train_window df (months_of df) L i in
  let te := test_window df (months_of df) L i in
  length tr < length (tr ++ te)
  /\ get_realized_vol ctc v (tr ++ te) (length tr)
     = match ctc (tr ++ te) (length tr) cl with inl e => inl e | inr r => inr (Some r) end.
Proof.
  intros Hinit Hwf HL Hi tr te.
  destruct (search_windows_months df L i Hwf HL Hi) as (_ & _ & _ & Hte).
  assert (Hlen : length tr < length (tr ++ te)).
  { rewrite length_app.
    assert (length te <> 0) by (intro H0; apply length_zero_iff_nil in H0; exact (Hte H0)).
    lia. }
  split; [exact Hlen|].
  apply VolatilityEstimator_init_inv in Hinit. subst v.
  unfold get_realized_vol. cbn [model_type clean].
  destruct (Nat.leb_spec (length (tr ++ te)) (length tr)); [lia|].
  rewrite String.eqb_refl. reflexivity.
Qed.


(** X6: a model that returns one in-sample conditional volatility per
    training row and a forecast of the requested horizon never triggers the
    length-mismatch [ValueError] of [_get_estimated_errors]: the result is
    then that of the realized-volatility estimator, with the three calls
    logged. *)
Theorem get_estimated_errors_conforming_model (self : ErrorEstimator) (tr te : Frame)
  (p : Param) (preds : list Q) :
  train_model (model self) tr = inr p ->
  length (conditional_volatility p) = length tr ->
  vol_forecast (model self) p (length te) = inr preds ->
  length preds = length te ->
  get_estimated_errors self tr te
  = ([CTrain tr; CForecast (length te); CRealized (tr ++ te) (length tr)],
     match realized_vol_estimator self (tr ++ te) (length tr) with
     | inl e => inl e
     | inr rv => inr (Qsum (map sq_err (merge_index
                   (combine (tr ++ te) (conditional_volatility p ++ preds)) rv)))
     end).
Proof.
  intros Ht Hp Hf Hpr.
  unfold get_estimated_errors, call_train, call_forecast, call_realized, bind_M, raise, ret_M.
  rewrite Ht, Hf.
  replace (length (conditional_volatility p ++ preds) =? length (tr ++ te)) with true
    by (symmetry; apply Nat.eqb_eq; rewrite !length_app; lia).
  simpl. destruct (realized_vol_estimator self (tr ++ te) (length tr)); reflexivity.
Qed.

(** Every error recorded by the search is non-negative. *)
Lemma get_estimated_errors_nonneg (self : ErrorEstimator) (tr te : Frame) (x : Q) :
  snd (get_estimated_errors self tr te) = inr x -> (0 <= x)%Q.
Proof.
  unfold get_estimated_errors, call_train, call_forecast, call_realized, bind_M, raise, ret_M.
  destruct (train_model (model self) tr) as [e|p]; simpl; [discriminate|].
  destruct (vol_forecast (model self) p (length te)) as [e|preds]; simpl; [discriminate|].
  destruct (negb _); simpl; [discriminate|].
  destruct (realized_vol_estimator self (tr ++ te) (length tr)) as [e|rv]; simpl;
    [discriminate|].
  intros [= <-]. apply Qsum_nonneg. intros y Hy. apply in_map_iff in Hy as [cr [<- _]].
  apply sq_err_nonneg.
Qed.

Lemma trial_val_nonneg (self : ErrorEstimator) (df : Frame) (months : list YM)
  (Li : nat * nat) : (0 <= trial_val self df months Li)%Q.
Proof.
  unfold trial_val. destruct (snd (trial self df months Li)) as [e|x] eqn:E.
  - apply Qle_refl.
  - exact (get_estimated_errors_nonneg _ _ _ x E).
Qed.

Lemma dd_append_values (P : Q -> Prop) (k : nat) (x : Q) : forall d,
  P x -> (forall kl, In kl d -> forall y, In y (snd kl) -> P y) ->
  forall kl, In kl (dd_append k x d) -> forall y, In y (snd kl) -> P y.
Proof.
  induction d as [|[k' l] t IH]; intros Hx H kl Hin y Hy.
  - destruct Hin as [<-|[]]. destruct Hy as [<-|[]]. exact Hx.
  - cbn [dd_append] in Hin. destruct (k =? k').
    + destruct Hin as [<-|Hin]; [|exact (H kl (or_intror Hin) y Hy)].
      simpl in Hy. apply in_app_or in Hy as [Hy|[<-|[]]]; [|exact Hx].
      exact (H (k', l) (or_introl eq_refl) y Hy).
    + destruct Hin as [<-|Hin]; [exact (H _ (or_introl eq_refl) y Hy)|].
      exact (IH Hx (fun kl' H' => H kl' (or_intror H')) kl Hin y Hy).
Qed.

Lemma acc_fold_values (P : Q -> Prop) (V : nat * nat -> Q) : forall l d,
  (forall Li, P (V Li)) -> (forall kl, In kl d -> forall y, In y (snd kl) -> P y) ->
  forall kl, In kl (acc_fold V l d) -> forall y, In y (snd kl) -> P y.
Proof.
  unfold acc_fold. induction l as [|Li l IH]; intros d HV H; simpl; [exact H|].
  apply IH; [exact HV|]. apply dd_append_values; [apply HV | exact H].
Qed.

Lemma arith_mean_nonneg (l : list Q) :
  (forall x, In x l -> 0 <= x)%Q -> (0 <= arith_mean l)%Q.
Proof.
  intro H. unfold arith_mean, Qdiv. apply Qmult_le_0_compat; [apply Qsum_nonneg; exact H|].
  apply Qinv_le_0_compat. unfold Qle. simpl. lia.
Qed.

(** X7: when the search runs (series longer than [min_sample_size], K >= 2
    months) and returns (s, m), the sample size s is one of the lengths
    tried, 1 <= s <= K - 1, and the error m is a number (not NaN) that is
    at least 0. *)
Theorem get_best_sample_size_result_range (min_sample_size : nat)
  (self : ErrorEstimator) (df : Frame) (s : nat) (m : F) :
  min_sample_size < length df ->
  2 <= length (months_of df) ->
  snd (get_best_sample_size min_sample_size self df) = inr (s, m) ->
  1 <= s <= length (months_of df) - 1 /\ exists q, m = Some q /\ (0 <= q)%Q.
Proof.
  intros Hlen HK2 Hres. set (K := length (months_of df)) in *.
  rewrite get_best_sample_size_search in Hres by exact Hlen. fold K in Hres.
  destruct (mfold (trial_step self df (months_of df)) [] (trial_schedule K))
    as [w r] eqn:Hm.
  destruct r as [e|errs]; [discriminate|].
  assert (Hok := mfold_success_inv self df (months_of df) (trial_schedule K) [] errs
                   ltac:(rewrite Hm; reflexivity)).
  rewrite mfold_trials_ok in Hm by exact Hok. injection Hm as _ Herrs.
  fold (acc_fold (trial_val self df (months_of df)) (trial_schedule K) []) in Herrs.
  assert (Hkeys : map fst errs = seq 1 (K - 1)).
  { subst errs. apply acc_fold_keys_schedule. lia. }
  assert (Hne : forall kl, In kl errs -> snd kl <> []).
  { subst errs. apply acc_fold_nonempty. intros kl []. }
  assert (Hpos : forall kl, In kl errs -> forall y, In y (snd kl) -> (0 <= y)%Q).
  { subst errs. apply acc_fold_values; [apply trial_val_nonneg | intros kl []]. }
  destruct errs as [|[k1 l1] rest].
  { destruct K as [|[|K']]; [lia | lia | discriminate]. }
  assert (Hk1 : k1 = 1).
  { destruct K as [|[|K']]; [lia | lia |]. simpl in Hkeys. injection Hkeys as H1 _. exact H1. }
  subst k1.
  assert (Hl1 : l1 <> []) by exact (Hne (1, l1) (or_introl eq_refl)).
  cbn [bind_M dd_get find fst snd Nat.eqb ret_M fold_left] in Hres.
  unfold select_step at 2 in Hres. cbn [fst snd] in Hres.
  rewrite (np_mean_nonempty l1 Hl1) in Hres.
  rewrite (F_lt_Some_false _ _ (Qle_refl _)) in Hres. simpl in Hres.
  assert (Hrest : forall kl, In kl rest -> snd kl <> []) by (intros; apply Hne; right; assumption).
  destruct (select_fold_spec rest 1 (arith_mean l1) Hrest)
    as (s' & q & Hf & [(-> & -> & _)|Hb]);
    (match type of Hf with
     | _ = ?r => assert (Hsm : r = (s, m))
                   by (injection Hres as Hres; exact (eq_trans (eq_sym Hf) Hres))
     end; injection Hsm as <- <-).
  - split; [lia|]. exists (arith_mean l1). split; [reflexivity|].
    apply arith_mean_nonneg. exact (Hpos (1, l1) (or_introl eq_refl)).
  - destruct Hb as (pre & l & post & Heq & Hq & _ & _ & _). subst rest q.
    assert (Hin : In (s', l) ((1, l1) :: pre ++ (s', l) :: post)) by (right; apply in_elt).
    split.
    + apply (in_map fst) in Hin. rewrite Hkeys in Hin. apply in_seq in Hin. simpl in Hin. lia.
    + exists (arith_mean l). split; [reflexivity|].
      apply arith_mean_nonneg. exact (Hpos _ Hin).
Qed.

Lemma Qsum_map_sub (c : Q) : forall l : list Q,
  (Qsum (map (fun r => r - c) l) == Qsum l - inject_Z (Z.of_nat (length l)) * c)%Q.
Proof.
  induction l as [|x l IH]; cbn [map Qsum length].
  - simpl. ring.
  - rewrite IH. rewrite Nat2Z.inj_succ, <- Z.add_1_r, inject_Z_plus. simpl. ring.
Qed.

(** X8: for a non-empty returns column, the [Residuals] column of
    [get_residuals] has no NaN and sums to 0 (up to exact arithmetic). *)
Theorem get_residuals_sum_zero (rets : list Q) :
  rets <> [] ->
  exists es, map (fun row => fst (fst row)) (get_residuals rets) = map Some es
  /\ (Qsum es == 0)%Q.
Proof.
  intro Hne.
  exists (map (fun r => r - arith_mean rets)%Q rets). split.
  - unfold get_residuals, series_mean. rewrite (np_mean_nonempty rets Hne).
    rewrite !map_map. reflexivity.
  - rewrite Qsum_map_sub. unfold arith_mean.
    assert (Hn : ~ (inject_Z (Z.of_nat (length rets)) == 0)%Q).
    { intro H. change 0%Q with (inject_Z 0) in H. rewrite inject_Z_injective in H.
      destruct rets; [congruence|]. cbn [length] in H. rewrite Nat2Z.inj_succ in H. lia. }
    field. exact Hn.
Qed.



(** ** Witnesses of the further properties *)

Ltac rows_by tac :=
  let r := fresh "r" in let Hr := fresh "Hr" in
  intros r Hr;
  repeat (destruct Hr as [<-|Hr]; [tac|]);
  destruct Hr.

Lemma search_windows_hold_their_months_witness :
  test_window df_mid_months (months_of df_mid_months) 1 0 <> [].
Proof.
  apply (search_windows_hold_their_months df_mid_months 1 0).
  - rows_by ltac:(split; simpl; lia).
  - lia.
  - apply Nat.ltb_lt. reflexivity.
Defined.

Lemma search_windows_disjoint_without_month_start_rows_witness :
  ~ In (day 2020 1 20) (test_window df_mid_months (months_of df_mid_months) 1 0).
Proof.
  apply (proj1 (search_windows_disjoint_without_month_start_rows df_mid_months 1 0
           ltac:(rows_by ltac:(unfold wf_ts; simpl; lia))
           ltac:(rows_by ltac:(left; simpl; lia))
           ltac:(apply Nat.ltb_lt; reflexivity))).
  vm_compute. right. left. reflexivity.
Defined.

Lemma search_realized_vol_never_too_small_witness :
  let tr := train_window df_mid_months (months_of df_mid_months) 1 0 in
  let te := test_window df_mid_months (months_of df_mid_months) 1 0 in
  length tr < length (tr ++ te)
  /\ get_realized_vol unit_ctc (mkVE VolatilityModelsMap_CloseToClose true 0%Z)
       (tr ++ te) (length tr)
     = match unit_ctc (tr ++ te) (length tr) true with
       | inl e => inl e | inr r => inr (Some r) end.
Proof.
  apply (search_realized_vol_never_too_small unit_ctc (Some "Close-To-Close"%string) true 0%Z
           (mkVE VolatilityModelsMap_CloseToClose true 0%Z) df_mid_months 1 0).
  - reflexivity.
  - rows_by ltac:(split; simpl; lia).
  - lia.
  - apply Nat.ltb_lt. reflexivity.
Defined.


Lemma get_estimated_errors_conforming_model_witness :
  get_estimated_errors unit_ee [day 2020 1 15] [day 2020 2 14]
  = ([CTrain [day 2020 1 15]; CForecast 1; CRealized [day 2020 1 15; day 2020 2 14] 1],
     inr 2%Q).
Proof.
  rewrite (get_estimated_errors_conforming_model unit_ee [day 2020 1 15] [day 2020 2 14]
             (mkParam [0%Q]) [0%Q] eq_refl eq_refl eq_refl eq_refl).
  reflexivity.
Defined.

Lemma get_best_sample_size_result_range_witness :
  1 <= 1 <= length (months_of df_mid_months) - 1
  /\ exists q, Some (8 # 2)%Q = Some q /\ (0 <= q)%Q.
Proof.
  apply (get_best_sample_size_result_range 2 unit_ee df_mid_months 1 (Some (8 # 2)%Q)).
  - simpl. lia.
  - apply Nat.leb_le. reflexivity.
  - reflexivity.
Defined.

Lemma get_residuals_sum_zero_witness :
  exists es, map (fun row => fst (fst row)) (get_residuals [1; 2; 6]%Q) = map Some es
  /\ (Qsum es == 0)%Q.
Proof.
  apply (get_residuals_sum_zero [1; 2; 6]%Q). discriminate.
Defined.
